(** * GraphBolt feature store: a shallow embedding of
    [python/dgl/graphbolt/feature_store.py] and the verification of its
    contract.

    The Python class [TorchBasedFeatureStore] keeps a dictionary from feature
    names to torch tensors.  Tensors are mutable objects that the dictionary
    only references, and [update] with [ids] writes into the referenced
    tensor in place, so the embedding is a small object store: a heap of
    tensor objects plus the dictionary of the feature store, threaded through
    a state-and-error monad. *)

From stdpp Require Import gmap strings list fin_maps.

Open Scope Z_scope.

(** ** Tensors *)

(** A dense integer tensor.  A tensor of dimension at least one is kept as
    the list of its rows (its slices along the first dimension), each row
    being the row-major contents of the trailing dimensions [trail]. *)
Inductive tensor :=
| Scalar (x : Z)
| Rows (trail : list nat) (rows : list (list Z)).

Definition prod_list (s : list nat) : nat := foldr Nat.mul 1%nat s.

(** [t.shape] *)
Definition shape (t : tensor) : list nat :=
  match t with
  | Scalar _ => []
  | Rows trail rows => length rows :: trail
  end.

(** The row-major contents of a tensor. *)
Definition flat (t : tensor) : list Z :=
  match t with
  | Scalar x => [x]
  | Rows _ rows => concat rows
  end.

(** Every row holds exactly the elements of the trailing dimensions. *)
Definition tensor_wf (t : tensor) : Prop :=
  match t with
  | Scalar _ => True
  | Rows trail rows => Forall (λ r, length r = prod_list trail) rows
  end.

(** ** Python objects *)

Abbreviation loc := positive.

(** Hashable objects used as dictionary keys. *)
Inductive pykey :=
| KStr (s : string)
| KInt (n : Z).

(** Values: [None], an [int], or a reference to a tensor object. *)
Inductive pyval :=
| VNone
| VInt (n : Z)
| VTensor (l : loc).

#[global] Instance pykey_eq_dec : EqDecision pykey.
Proof. solve_decision. Defined.

#[global] Instance pyval_eq_dec : EqDecision pyval.
Proof. solve_decision. Defined.

#[global] Instance tensor_eq_dec : EqDecision tensor.
Proof. solve_decision. Defined.

#[global] Instance pykey_countable : Countable pykey.
Proof.
  refine (inj_countable'
            (λ k, match k with KStr s => inl s | KInt n => inr n end)
            (λ x, match x with inl s => KStr s | inr n => KInt n end) _).
  by intros [].
Defined.

(** What a caller may hand to the constructor. *)
Inductive pyobj :=
| ODict (d : gmap pykey pyval)
| OVal (v : pyval).

Definition isinstance_str (k : pykey) : bool :=
  match k with KStr _ => true | KInt _ => false end.

Definition isinstance_Tensor (v : pyval) : bool :=
  match v with VTensor _ => true | _ => false end.

(** ** Exceptions

    The three [assert] statements of the class raise [AssertionError]; they
    are told apart by the assertion that failed.  The others are raised by
    the interpreter or by torch. *)
Inductive error :=
| KeyNotFound       (* assert key in self._feature_dict *)
| TypeMismatch      (* the isinstance assertions of __init__ *)
| ShapeMismatch     (* assert ids.shape[0] == value.shape[0] *)
| IndexOutOfBounds  (* IndexError *)
| RuntimeError      (* torch: value cannot be broadcast, or overlaps *)
| TypeError         (* subscripting an object that is no tensor *)
| AttributeError    (* .shape of an object that is no tensor *)
| KeyError          (* subscripting a dict with a key it does not hold *)
| SystemError.      (* a reference to no object; no Python state has one *)

Inductive result (A : Type) :=
| Ok (a : A)
| Err (e : error).
Arguments Ok {A} a.
Arguments Err {A} e.

#[global] Instance error_eq_dec : EqDecision error.
Proof. solve_decision. Defined.

(** ** Program state and its monad *)

Record state := State {
  heap : gmap loc tensor;
  _feature_dict : gmap pykey pyval
}.

Definition M (A : Type) : Type := state → result A * state.

Definition ret {A} (a : A) : M A := λ σ, (Ok a, σ).

Definition raise {A} (e : error) : M A := λ σ, (Err e, σ).

Definition bind {A B} (m : M A) (f : A → M B) : M B :=
  λ σ, match m σ with
       | (Ok a, σ') => f a σ'
       | (Err e, σ') => (Err e, σ')
       end.

Notation "x <- m ;; k" := (bind m (λ x, k))
  (at level 100, m at next level, right associativity).
Notation "m ;;; k" := (bind m (λ _, k))
  (at level 100, right associativity).

(** [assert b] *)
Definition py_assert (b : bool) (e : error) : M unit :=
  if b then ret tt else raise e.

Definition get_dict : M (gmap pykey pyval) := λ σ, (Ok (_feature_dict σ), σ).

(** [self._feature_dict[key]] *)
Definition dict_getitem (key : pykey) : M pyval :=
  λ σ, match _feature_dict σ !! key with
       | Some v => (Ok v, σ)
       | None => (Err KeyError, σ)
       end.

(** [self._feature_dict[key] = value] *)
Definition dict_setitem (key : pykey) (value : pyval) : M unit :=
  λ σ, (Ok tt, {| heap := heap σ; _feature_dict := <[key := value]> (_feature_dict σ) |}).

(** Follow a reference to a tensor object. *)
Definition deref (l : loc) : M tensor :=
  λ σ, match heap σ !! l with
       | Some t => (Ok t, σ)
       | None => (Err SystemError, σ)
       end.

(** Allocate a new tensor object. *)
Definition alloc (t : tensor) : M loc :=
  λ σ, let l := fresh (dom (heap σ)) in
       (Ok l, {| heap := <[l := t]> (heap σ); _feature_dict := _feature_dict σ |}).

(** Overwrite the contents of a tensor object in place. *)
Definition store (l : loc) (t : tensor) : M unit :=
  λ σ, (Ok tt, {| heap := <[l := t]> (heap σ); _feature_dict := _feature_dict σ |}).

(** ** Indexing a torch tensor by a one-dimensional tensor of integers

    torch is a library, not part of the repository.  Tensor objects of the
    model own their storage: no two of them are views of one buffer. *)

Definition in_range (n : nat) (i : Z) : Prop := - Z.of_nat n ≤ i < Z.of_nat n.

#[global] Instance in_range_dec n i : Decision (in_range n i).
Proof. unfold in_range. apply _. Defined.

(** The row named by an index. *)
Definition row_of (n : nat) (i : Z) : nat :=
  if decide (0 ≤ i) then Z.to_nat i else Z.to_nat (Z.of_nat n + i).

Definition norm_index (n : nat) (i : Z) : option nat :=
  if decide (in_range n i) then Some (row_of n i) else None.

(** Modelled from the spec: torch's [t[ids]], which is not in the
    repository.  The result holds the rows of [t] at the indices, in the
    order of [ids], a repeated index repeating its row; an index out of
    range raises.  As in torch an index [i] with [-n <= i < 0] names row
    [n + i]. *)
Fixpoint index_rows (rows : list (list Z)) (ids : list Z) : result (list (list Z)) :=
  match ids with
  | [] => Ok []
  | i :: ids' =>
      match norm_index (length rows) i ≫= (rows !!.) with
      | None => Err IndexOutOfBounds
      | Some r =>
          match index_rows rows ids' with
          | Ok rs => Ok (r :: rs)
          | Err e => Err e
          end
      end
  end.

(** Modelled from the spec: torch's [t[ids] = vals], which is not in the
    repository.  Row [ids[j]] of [t] is overwritten with row [j] of [vals],
    one write per index in the order of [ids], so the last write to a row
    wins.  At an index out of range the loop raises and keeps the writes
    made so far. *)
Fixpoint index_put_rows (rows : list (list Z)) (ids : list Z) (vals : list (list Z))
  : list (list Z) * result unit :=
  match ids, vals with
  | i :: ids', v :: vals' =>
      match norm_index (length rows) i with
      | None => (rows, Err IndexOutOfBounds)
      | Some r => index_put_rows (<[r := v]> rows) ids' vals'
      end
  | _, _ => (rows, Ok tt)
  end.

(** Broadcasting of the right-hand side to the shape of [t[ids]], as torch
    does it: leading dimensions of size one of the value are dropped, the
    shapes are aligned at the last dimension, and a dimension of the value
    must equal the target's or be one. *)
Fixpoint strip_ones (s : list nat) : list nat :=
  match s with
  | 1%nat :: s' => strip_ones s'
  | _ => s
  end.

Definition align (vs ts : list nat) : list nat :=
  replicate (length ts - length (strip_ones vs)) 1%nat ++ strip_ones vs.

Fixpoint expandable (vs ts : list nat) : bool :=
  match vs, ts with
  | [], [] => true
  | v :: vs', t :: ts' =>
      (bool_decide (v = t) || bool_decide (v = 1%nat)) && expandable vs' ts'
  | _, _ => false
  end.

Fixpoint expand (vs ts : list nat) (d : list Z) : list Z :=
  match vs, ts with
  | v :: vs', t :: ts' =>
      if decide (v = t)
      then concat (expand vs' ts' <$> reshape (replicate v (prod_list vs')) d)
      else concat (replicate t (expand vs' ts' d))
  | _, _ => d
  end.

Definition broadcast_to (vs ts : list nat) (d : list Z) : option (list Z) :=
  if expandable (align vs ts) ts then Some (expand (align vs ts) ts d) else None.

(** The tensor a right-hand side denotes: a number is a zero-dimensional
    tensor. *)
Definition as_tensor (value : pyval) : M tensor :=
  match value with
  | VTensor l => deref l
  | VInt n => ret (Scalar n)
  | VNone => raise TypeError
  end.

(** [target[ids]] *)
Definition getitem (target : pyval) (ids : list Z) : M pyval :=
  match target with
  | VTensor l =>
      t <- deref l ;;
      match t with
      | Scalar _ => raise IndexOutOfBounds
      | Rows trail rows =>
          match index_rows rows ids with
          | Ok rs => l' <- alloc (Rows trail rs) ;; ret (VTensor l')
          | Err e => raise e
          end
      end
  | _ => raise TypeError
  end.

(** [target[ids] = value].  torch refuses a [value] that is the written
    tensor itself, then broadcasts, then writes. *)
Definition setitem (target : pyval) (ids : list Z) (value : pyval) : M unit :=
  match target with
  | VTensor l =>
      t <- deref l ;;
      v <- as_tensor value ;;
      match t with
      | Scalar _ => raise IndexOutOfBounds
      | Rows trail rows =>
          if decide (value = VTensor l) then raise RuntimeError else
          match broadcast_to (shape v) (length ids :: trail) (flat v) with
          | None => raise RuntimeError
          | Some d =>
              let vals := reshape (replicate (length ids) (prod_list trail)) d in
              let (rows', r) := index_put_rows rows ids vals in
              store l (Rows trail rows') ;;;
              match r with
              | Ok _ => ret tt
              | Err e => raise e
              end
          end
      end
  | _ => raise TypeError
  end.

(** [value.shape[0]] *)
Definition shape0 (value : pyval) : M nat :=
  match value with
  | VTensor l =>
      t <- deref l ;;
      match shape t with
      | n :: _ => ret n
      | [] => raise IndexOutOfBounds
      end
  | _ => raise AttributeError
  end.

(** ** [TorchBasedFeatureStore] *)

(** The body of the loop of [__init__] over [feature_dict.items()]. *)
Fixpoint check_items (items : list (pykey * pyval)) : result unit :=
  match items with
  | [] => Ok tt
  | (k, v) :: items' =>
      if negb (isinstance_str k) then Err TypeMismatch
      else if negb (isinstance_Tensor v) then Err TypeMismatch
      else check_items items'
  end.

(** [TorchBasedFeatureStore(feature_dict)]: the dictionary the new store
    keeps as [self._feature_dict].  The assertions of the loop raise the same
    error, so the order in which the items are visited does not show. *)
Definition __init__ (feature_dict : pyobj) : result (gmap pykey pyval) :=
  match feature_dict with
  | ODict d =>
      match check_items (map_to_list d) with
      | Ok _ => Ok d
      | Err e => Err e
      end
  | OVal _ => Err TypeMismatch
  end.

(** [read(self, key, ids=None)]; [ids] is [None] or a one-dimensional tensor
    of integers, given by its elements. *)
Definition read (key : pykey) (ids : option (list Z)) : M pyval :=
  d <- get_dict ;;
  py_assert (bool_decide (key ∈ dom d)) KeyNotFound ;;;
  match ids with
  | None => dict_getitem key
  | Some ids => t <- dict_getitem key ;; getitem t ids
  end.

(** [update(self, key, value, ids=None)] *)
Definition update (key : pykey) (value : pyval) (ids : option (list Z)) : M unit :=
  d <- get_dict ;;
  py_assert (bool_decide (key ∈ dom d)) KeyNotFound ;;;
  match ids with
  | None => dict_setitem key value
  | Some ids =>
      n <- shape0 value ;;
      py_assert (bool_decide (length ids = n)) ShapeMismatch ;;;
      t <- dict_getitem key ;;
      setitem t ids value
  end.

(** The typing invariant the constructor checks: every key is a string and
    every value is a tensor. *)
Definition well_typed (d : gmap pykey pyval) : Prop :=
  ∀ k v, d !! k = Some v → (∃ s, k = KStr s) ∧ (∃ l, v = VTensor l).

Definition valid_feature_dict (o : pyobj) : Prop :=
  match o with
  | ODict d => well_typed d
  | OVal _ => False
  end.

(** The docstring example of the class. *)
Definition example_heap : gmap loc tensor :=
  {[ 1%positive := Rows [] [[0]; [1]; [2]; [3]; [4]];
     2%positive := Rows [] [[0]; [1]; [2]; [3]; [4]; [5]];
     3%positive := Rows [3%nat] [[0; 1; 2]; [3; 4; 5]];
     4%positive := Rows [] [[1]; [1]; [1]];
     5%positive := Rows [] [[8]; [9]] ]}.

Definition example_dict : gmap pykey pyval :=
  {[ KStr "user" := VTensor 1; KStr "item" := VTensor 2; KStr "rel" := VTensor 3 ]}.

Definition example_state : state :=
  {| heap := example_heap; _feature_dict := example_dict |}.



(** The contents of the tensor that [read] returns. *)
Definition read_tensor (key : pykey) (ids : option (list Z)) (σ : state) : option tensor :=
  match read key ids σ with
  | (Ok (VTensor l), σ') => heap σ' !! l
  | _ => None
  end.



(** ** Invariants of a running store *)

(** Every reference the dictionary holds is to an allocated tensor. *)
Definition refs_allocated (σ : state) : Prop :=
  ∀ k l, _feature_dict σ !! k = Some (VTensor l) → is_Some (heap σ !! l).

(** What the constructor establishes on a heap that holds its tensors. *)
Definition store_ok (σ : state) : Prop :=
  well_typed (_feature_dict σ) ∧ refs_allocated σ.

(** Every tensor object is well formed. *)
Definition heap_wf (σ : state) : Prop :=
  ∀ l t, heap σ !! l = Some t → tensor_wf t.

(** [torch.arange(n)] *)
Definition arange (n : nat) : list Z := seqZ 0 (Z.of_nat n).

(** * Verification *)

(** ** The examples of the docstring *)

Example read_user :
  read_tensor (KStr "user") (Some [0; 1; 2]) example_state
  = Some (Rows [] [[0]; [1]; [2]]).
Proof. reflexivity. Qed.

Example read_rel :
  read_tensor (KStr "rel") (Some [0]) example_state
  = Some (Rows [3%nat] [[0; 1; 2]]).
Proof. reflexivity. Qed.

Example update_user_then_read :
  read_tensor (KStr "user") (Some [0; 1; 2])
    (update (KStr "user") (VTensor 4) (Some [0; 1; 2]) example_state).2
  = Some (Rows [] [[1]; [1]; [1]]).
Proof. reflexivity. Qed.

Example broadcast_column :
  broadcast_to [2; 1]%nat [2; 3]%nat [7; 8] = Some [7; 7; 7; 8; 8; 8].
Proof. reflexivity. Qed.

Example broadcast_row :
  broadcast_to [3]%nat [2; 3]%nat [7; 8; 9] = Some [7; 8; 9; 7; 8; 9].
Proof. reflexivity. Qed.

Example broadcast_mismatch : broadcast_to [0; 5]%nat [0; 3]%nat [] = None.
Proof. reflexivity. Qed.

(** ** Indices *)

Section index.
Context (n : nat).
Implicit Types (i : Z) (r : nat).

Lemma row_of_lt i : in_range n i → (row_of n i < n)%nat.
Proof. unfold in_range, row_of. intros ?. case_decide; lia. Qed.

Lemma norm_index_in_range i : in_range n i → norm_index n i = Some (row_of n i).
Proof. unfold norm_index. intros ?. by rewrite decide_True. Qed.

Lemma norm_index_out_of_range i : ¬ in_range n i → norm_index n i = None.
Proof. unfold norm_index. intros ?. by rewrite decide_False. Qed.

Lemma row_of_nonneg i : 0 ≤ i → row_of n i = Z.to_nat i.
Proof. unfold row_of. intros ?. by rewrite decide_True. Qed.
End index.

(** ** Gather *)

Section gather.
Context (rows : list (list Z)).

Lemma index_rows_in_range ids :
  Forall (in_range (length rows)) ids →
  ∃ rs, index_rows rows ids = Ok rs ∧ length rs = length ids ∧
        ∀ j i, ids !! j = Some i → rs !! j = rows !! row_of (length rows) i.
Proof.
  induction 1 as [|i ids Hi _ (rs & Hrs & Hlen & Hget)]; simpl.
  - exists []. split_and!; [done..|]. by intros j i.
  - rewrite (norm_index_in_range _ _ Hi). simpl.
    destruct (lookup_lt_is_Some_2 rows (row_of (length rows) i) (row_of_lt _ _ Hi)) as [r Hr].
    rewrite Hr, Hrs. exists (r :: rs). split_and!; [done|simpl; lia|].
    intros [|j] i' Hj; simplify_eq/=; [done|]. by apply Hget.
Qed.

Lemma index_rows_out_of_range ids :
  Exists (λ i, ¬ in_range (length rows) i) ids → index_rows rows ids = Err IndexOutOfBounds.
Proof.
  induction 1 as [i ids Hi|i ids _ IH]; simpl.
  - by rewrite (norm_index_out_of_range _ _ Hi).
  - destruct (norm_index (length rows) i ≫= (rows !!.)); [|done]. by rewrite IH.
Qed.
End gather.

(** ** Scatter *)


(** Whatever the outcome, rows that no index names are left alone, and the
    number of rows does not change. *)
Lemma index_put_rows_frame ids : ∀ rows vals rows' res,
  index_put_rows rows ids vals = (rows', res) →
  length rows' = length rows ∧
  ∀ r, (∀ i, i ∈ ids → in_range (length rows) i → row_of (length rows) i ≠ r) →
       rows' !! r = rows !! r.
Proof.
  induction ids as [|i ids IH]; intros rows vals rows' res Hput.
  - destruct vals; by simplify_eq/=.
  - destruct vals as [|v vals]; [by simplify_eq/=|]. simpl in Hput.
    unfold norm_index in Hput. case_decide as Hi; [|by simplify_eq/=].
    apply IH in Hput as [Hlen Hframe]. rewrite length_insert in Hlen, Hframe.
    split; [done|]. intros r Hr. rewrite Hframe.
    + apply list_lookup_insert_ne, Hr; [left|done].
    + intros i' ??. apply Hr; [by right|done].
Qed.

(** ** Broadcasting a value that already has the target's shape *)




Lemma reshape_chunks n m (d : list Z) :
  length d = (m * n)%nat →
  Forall (λ c, length c = n) (reshape (replicate m n) d) ∧
  concat (reshape (replicate m n) d) = d.
Proof.
  revert d. induction m as [|m IH]; intros d Hd; simpl.
  - split; [done|]. by destruct d.
  - destruct (IH (drop n d)) as [Hall Hcat]; [rewrite length_drop; lia|].
    split.
    + constructor; [rewrite length_take; lia|done].
    + by rewrite Hcat, take_drop.
Qed.

Lemma concat_rows_length n (ls : list (list Z)) :
  Forall (λ r, length r = n) ls → length (concat ls) = (length ls * n)%nat.
Proof. induction 1; simpl; [done|]. rewrite length_app. lia. Qed.




(** ** The two methods, case by case *)

Section methods.
Context (σ : state) (key : pykey).

Lemma key_in_dict_true v :
  _feature_dict σ !! key = Some v →
  bool_decide (key ∈ dom (_feature_dict σ)) = true.
Proof. intros Hk. apply bool_decide_eq_true_2, elem_of_dom. eauto. Qed.

Lemma key_in_dict_false :
  _feature_dict σ !! key = None →
  bool_decide (key ∈ dom (_feature_dict σ)) = false.
Proof. intros Hk. by apply bool_decide_eq_false_2, not_elem_of_dom. Qed.

Lemma read_absent ids :
  _feature_dict σ !! key = None → read key ids σ = (Err KeyNotFound, σ).
Proof.
  intros Hk. unfold read, bind, get_dict, py_assert.
  by rewrite (key_in_dict_false Hk).
Qed.

Lemma read_whole v :
  _feature_dict σ !! key = Some v → read key None σ = (Ok v, σ).
Proof.
  intros Hk. unfold read, bind, get_dict, py_assert, dict_getitem.
  rewrite (key_in_dict_true _ Hk). simpl. by rewrite Hk.
Qed.

Lemma read_rows v ids :
  _feature_dict σ !! key = Some v → read key (Some ids) σ = getitem v ids σ.
Proof.
  intros Hk. unfold read, bind, get_dict, py_assert, dict_getitem.
  rewrite (key_in_dict_true _ Hk). simpl. by rewrite Hk.
Qed.

Lemma update_absent value ids :
  _feature_dict σ !! key = None → update key value ids σ = (Err KeyNotFound, σ).
Proof.
  intros Hk. unfold update, bind, get_dict, py_assert.
  by rewrite (key_in_dict_false Hk).
Qed.

Lemma update_whole v value :
  _feature_dict σ !! key = Some v →
  update key value None σ
  = (Ok tt, {| heap := heap σ; _feature_dict := <[key := value]> (_feature_dict σ) |}).
Proof.
  intros Hk. unfold update, bind, get_dict, py_assert, dict_setitem.
  by rewrite (key_in_dict_true _ Hk).
Qed.

Lemma update_rows v value ids :
  _feature_dict σ !! key = Some v →
  update key value (Some ids) σ
  = (n <- shape0 value ;;
     py_assert (bool_decide (length ids = n)) ShapeMismatch ;;;
     setitem v ids value) σ.
Proof.
  intros Hk. unfold update, bind, get_dict, py_assert, dict_getitem.
  rewrite (key_in_dict_true _ Hk). simpl.
  destruct (shape0 value σ) as [[n|e] σ1] eqn:Hs; [|done].
  assert (σ1 = σ) as ->.
  { unfold shape0, bind, deref, ret, raise in Hs.
    repeat case_match; by simplify_eq. }
  destruct (bool_decide (length ids = n)); simpl; [|done]. by rewrite Hk.
Qed.
End methods.

(** [t[ids]] on a tensor with rows. *)
Lemma getitem_rows σ l trail rows ids :
  heap σ !! l = Some (Rows trail rows) →
  getitem (VTensor l) ids σ
  = match index_rows rows ids with
    | Ok rs =>
        let l' := fresh (dom (heap σ)) in
        (Ok (VTensor l'),
         {| heap := <[l' := Rows trail rs]> (heap σ); _feature_dict := _feature_dict σ |})
    | Err e => (Err e, σ)
    end.
Proof.
  intros Hl. unfold getitem, bind, deref. rewrite Hl.
  by destruct (index_rows rows ids).
Qed.


(** Indexing raises nothing but [IndexError]. *)
Lemma index_rows_error rows ids e :
  index_rows rows ids = Err e → e = IndexOutOfBounds.
Proof.
  induction ids as [|i ids IH]; simpl; [done|].
  destruct (norm_index _ i ≫= _); [|congruence].
  destruct (index_rows rows ids); [done|]. intros. apply IH. congruence.
Qed.

Lemma index_put_rows_error ids : ∀ rows vals rows' e,
  index_put_rows rows ids vals = (rows', Err e) → e = IndexOutOfBounds.
Proof.
  induction ids as [|i ids IH]; intros rows vals rows' e; simpl.
  - by destruct vals.
  - destruct vals as [|v vals]; [done|].
    destruct (norm_index _ i); [apply IH|congruence].
Qed.

Lemma getitem_not_key_error v ids σ : (getitem v ids σ).1 ≠ Err KeyNotFound.
Proof.
  unfold getitem, bind, deref, alloc, ret, raise.
  repeat case_match; simplify_eq/=; try done.
  match goal with H : index_rows _ _ = Err _ |- _ => apply index_rows_error in H end.
  congruence.
Qed.

Lemma setitem_not_key_error t ids value σ :
  (setitem t ids value σ).1 ≠ Err KeyNotFound.
Proof.
  unfold setitem, as_tensor, bind, deref, store, ret, raise.
  repeat case_match; simplify_eq/=; try done.
  all: match goal with H : index_put_rows _ _ _ = _ |- _ =>
    apply index_put_rows_error in H; by subst end.
Qed.

Lemma shape0_state value σ r σ' : shape0 value σ = (r, σ') → σ' = σ.
Proof.
  unfold shape0, bind, deref, ret, raise. repeat case_match; by intros; simplify_eq.
Qed.

Lemma shape0_not_key_error value σ : (shape0 value σ).1 ≠ Err KeyNotFound.
Proof.
  unfold shape0, bind, deref, ret, raise. repeat case_match; by simplify_eq/=.
Qed.

(** ** Construction *)

Lemma check_items_ok items :
  check_items items = Ok tt ↔
  Forall (λ kv, (∃ s, kv.1 = KStr s) ∧ (∃ l, kv.2 = VTensor l)) items.
Proof.
  induction items as [|[k v] items IH]; simpl; [done|].
  rewrite Forall_cons, <-IH. simpl.
  destruct k, v; simpl;
    (split; [intros Hc|intros [[[s' Hs] [l' Hl]] Hc]]); try done; eauto.
Qed.

Lemma check_items_error items e : check_items items = Err e → e = TypeMismatch.
Proof.
  induction items as [|[k v] items IH]; simpl; [done|].
  destruct (isinstance_str k), (isinstance_Tensor v); simpl; by try congruence.
Qed.

Lemma well_typed_items d :
  well_typed d ↔
  Forall (λ kv, (∃ s, kv.1 = KStr s) ∧ (∃ l, kv.2 = VTensor l)) (map_to_list d).
Proof.
  rewrite Forall_forall. unfold well_typed. split.
  - intros Hd [k v] Hkv%elem_of_map_to_list. by apply Hd.
  - intros Hd k v Hkv%elem_of_map_to_list. by apply (Hd (k, v)).
Qed.

(** * The contract of the feature store *)



(** C4: [update(key, value)] on a key of the store binds [key] to [value],
    whatever [value] is and whatever was stored before, and the following
    [read(key)] returns [value]. *)
Theorem update_whole_then_read σ key value :
  key ∈ dom (_feature_dict σ) →
  let σ' := {| heap := heap σ; _feature_dict := <[key := value]> (_feature_dict σ) |} in
  update key value None σ = (Ok tt, σ') ∧ read key None σ' = (Ok value, σ').
Proof.
  intros [v Hk]%elem_of_dom σ'. split.
  - by apply (update_whole _ _ v).
  - apply read_whole. apply lookup_insert_eq.
Qed.

Lemma update_whole_then_read_witness :
  let σ' := {| heap := example_heap;
               _feature_dict := <[KStr "user" := VTensor 3]> example_dict |} in
  update (KStr "user") (VTensor 3) None example_state = (Ok tt, σ') ∧
  read (KStr "user") None σ' = (Ok (VTensor 3), σ').
Proof.
  apply (update_whole_then_read example_state (KStr "user") (VTensor 3)).
  apply elem_of_dom. exists (VTensor 1). reflexivity.
Defined.

(** C5: [read] and [update] fail the assertion on the key exactly when the
    key is not in the dictionary, whatever the other arguments are. *)
Theorem key_not_found_iff σ key value ids :
  ((read key ids σ).1 = Err KeyNotFound ↔ key ∉ dom (_feature_dict σ)) ∧
  ((update key value ids σ).1 = Err KeyNotFound ↔ key ∉ dom (_feature_dict σ)).
Proof.
  rewrite not_elem_of_dom.
  destruct (_feature_dict σ !! key) as [v|] eqn:Hk.
  - split; (split; [intros Herr; exfalso|done]).
    + destruct ids as [ids|].
      * rewrite (read_rows _ _ _ _ Hk) in Herr.
        by apply getitem_not_key_error in Herr.
      * by rewrite (read_whole _ _ _ Hk) in Herr.
    + destruct ids as [ids|].
      * rewrite (update_rows _ _ _ _ _ Hk) in Herr. unfold bind in Herr.
        pose proof (shape0_not_key_error value σ) as Hs.
        destruct (shape0 value σ) as [[n|e] σ1]; simpl in *; [|congruence].
        unfold py_assert in Herr.
        destruct (bool_decide (length ids = n)); simpl in *; [|congruence].
        by apply setitem_not_key_error in Herr.
      * by rewrite (update_whole _ _ _ _ Hk) in Herr.
  - by rewrite (read_absent _ _ _ Hk), (update_absent _ _ _ _ Hk).
Qed.

(** C6: when the value has a number of rows other than the number of
    indices, [update(key, value, ids)] on a key of the store fails the
    assertion on the lengths and the state (dictionary and every tensor) is
    what it was. *)
Theorem update_shape_mismatch σ key ids lv vtrail vrows :
  key ∈ dom (_feature_dict σ) →
  heap σ !! lv = Some (Rows vtrail vrows) →
  length vrows ≠ length ids →
  update key (VTensor lv) (Some ids) σ = (Err ShapeMismatch, σ).
Proof.
  intros [v Hk]%elem_of_dom Hlv Hlen.
  rewrite (update_rows _ _ _ _ _ Hk).
  unfold bind, shape0, bind, deref. rewrite Hlv. simpl.
  unfold py_assert. by rewrite bool_decide_eq_false_2.
Qed.

Lemma update_shape_mismatch_witness :
  update (KStr "user") (VTensor 4) (Some [0; 1]) example_state
  = (Err ShapeMismatch, example_state).
Proof.
  apply (update_shape_mismatch example_state (KStr "user") [0; 1] 4 [] [[1]; [1]; [1]]).
  - apply elem_of_dom. exists (VTensor 1). reflexivity.
  - reflexivity.
  - simpl. lia.
Defined.

(** C7: the constructor accepts its argument exactly when it is a dictionary
    whose keys are all strings and whose values are all tensors, and then
    keeps that dictionary; every other argument fails an assertion on the
    types. *)
Theorem init_checks_types o :
  (∀ d, __init__ o = Ok d ↔ o = ODict d ∧ well_typed d) ∧
  (__init__ o = Err TypeMismatch ↔ ¬ valid_feature_dict o).
Proof.
  destruct o as [d|v]; simpl.
  - pose proof (check_items_ok (map_to_list d)) as Hok.
    rewrite <-well_typed_items in Hok.
    destruct (check_items (map_to_list d)) as [[]|e] eqn:Hc.
    + assert (well_typed d) as Hwt by by apply Hok. split.
      * intros d'. split; [by intros [= <-]|by intros [[= <-] _]].
      * split; [done|]. intros Hn. by destruct Hn.
    + assert (¬ well_typed d) as Hwt by by intros ?%Hok.
      apply check_items_error in Hc as ->. split; [|done].
      intros d'. split; [done|by intros [[= <-] ?]].
  - split.
    + intros d. split; [done|by intros [? _]].
    + split; [by intros _ []|done].
Qed.

(** C8: when [key] is bound to a tensor with rows and some index of [ids] is
    out of range for the number of rows, [read(key, ids)] raises torch's
    index error. *)
Theorem read_out_of_range σ key l trail rows ids :
  _feature_dict σ !! key = Some (VTensor l) →
  heap σ !! l = Some (Rows trail rows) →
  Exists (λ i, ¬ in_range (length rows) i) ids →
  read key (Some ids) σ = (Err IndexOutOfBounds, σ).
Proof.
  intros Hk Hl Hout.
  by rewrite (read_rows _ _ _ _ Hk), (getitem_rows _ _ _ _ _ Hl),
    (index_rows_out_of_range _ _ Hout).
Qed.

Lemma read_out_of_range_witness :
  read (KStr "rel") (Some [0; 2]) example_state = (Err IndexOutOfBounds, example_state).
Proof.
  apply (read_out_of_range example_state (KStr "rel") 3 [3%nat] [[0; 1; 2]; [3; 4; 5]]).
  - reflexivity.
  - reflexivity.
  - right. left. unfold in_range. simpl. lia.
Defined.









(** ** Frame *)

Lemma getitem_frame v ids σ r σ' :
  getitem v ids σ = (r, σ') →
  _feature_dict σ' = _feature_dict σ ∧
  ∀ l t, heap σ !! l = Some t → heap σ' !! l = Some t.
Proof.
  unfold getitem, bind, deref, alloc, ret, raise.
  repeat case_match; intros; simplify_eq/=; split; try done.
  intros l1 t1 Hl1. rewrite lookup_insert_ne; [done|]. intros <-.
  apply elem_of_dom_2 in Hl1. by apply is_fresh in Hl1.
Qed.

Lemma setitem_frame t ids value σ r σ' :
  setitem t ids value σ = (r, σ') →
  _feature_dict σ' = _feature_dict σ ∧
  (σ' = σ ∨
   ∃ l trail rows vals rows' res,
     t = VTensor l ∧ heap σ !! l = Some (Rows trail rows) ∧
     index_put_rows rows ids vals = (rows', res) ∧
     heap σ' = <[l := Rows trail rows']> (heap σ)).
Proof.
  unfold setitem, as_tensor, bind, deref, store, ret, raise.
  repeat case_match; intros; simplify_eq/=; split; try done; try (by left).
  all: right; eauto 10.
Qed.

Lemma read_frame key ids σ r σ' :
  read key ids σ = (r, σ') →
  _feature_dict σ' = _feature_dict σ ∧
  ∀ l t, heap σ !! l = Some t → heap σ' !! l = Some t.
Proof.
  destruct (_feature_dict σ !! key) as [v|] eqn:Hk.
  - destruct ids as [ids|].
    + rewrite (read_rows _ _ _ _ Hk). apply getitem_frame.
    + rewrite (read_whole _ _ _ Hk). by intros [= _ <-].
  - rewrite (read_absent _ _ _ Hk). by intros [= _ <-].
Qed.

(** The state after [update(key, value, ids)], whatever the outcome. *)
Lemma update_state key value ids σ r σ' :
  update key value ids σ = (r, σ') →
  σ' = σ ∨
  (ids = None ∧ r = Ok tt ∧ is_Some (_feature_dict σ !! key) ∧
   σ' = {| heap := heap σ; _feature_dict := <[key := value]> (_feature_dict σ) |}) ∨
  (∃ idx l trail rows vals rows' res,
     ids = Some idx ∧ _feature_dict σ !! key = Some (VTensor l) ∧
     heap σ !! l = Some (Rows trail rows) ∧
     index_put_rows rows idx vals = (rows', res) ∧
     σ' = {| heap := <[l := Rows trail rows']> (heap σ);
             _feature_dict := _feature_dict σ |}).
Proof.
  destruct (_feature_dict σ !! key) as [v|] eqn:Hk.
  - destruct ids as [idx|].
    + rewrite (update_rows _ _ _ _ _ Hk). unfold bind at 1.
      destruct (shape0 value σ) as [[n|e] σ0] eqn:Hs;
        apply shape0_state in Hs as ->; [|intros [= _ <-]; by left].
      unfold bind, py_assert.
      destruct (bool_decide (length idx = n)); simpl; [|intros [= _ <-]; by left].
      intros [Hd [->|(l & trail & rows & vals & rows' & res & -> & Hl & Hput & Hh)]]%setitem_frame;
        [by left|].
      right. right. exists idx, l, trail, rows, vals, rows', res.
      split_and!; [done..|]. destruct σ'; simpl in *. by subst.
    + rewrite (update_whole _ _ _ _ Hk). intros [= <- <-]. right. left. eauto.
  - rewrite (update_absent _ _ _ _ Hk). intros [= _ <-]. by left.
Qed.




(** C10: the constructor accepts only dictionaries of tensors, yet on a
    store it accepted [update(key, value)] binds a key to any value that is
    no tensor, the following [read(key)] returns that value, and the
    dictionary no longer passes the checks of the constructor. *)
Theorem update_breaks_typing h o d key value :
  __init__ o = Ok d →
  key ∈ dom d →
  isinstance_Tensor value = false →
  let σ := {| heap := h; _feature_dict := d |} in
  let σ' := {| heap := h; _feature_dict := <[key := value]> d |} in
  well_typed d ∧
  update key value None σ = (Ok tt, σ') ∧
  read key None σ' = (Ok value, σ') ∧
  ¬ well_typed (_feature_dict σ') ∧
  __init__ (ODict (_feature_dict σ')) = Err TypeMismatch.
Proof.
  intros Hinit [v Hk]%elem_of_dom Hv σ σ'.
  assert (Hbad : ¬ well_typed (<[key := value]> d)).
  { intros Hwt. destruct (Hwt key value) as [_ [l ->]]; [apply lookup_insert_eq|done]. }
  split_and!; [|by apply (update_whole σ key v)|apply read_whole, lookup_insert_eq|done|].
  - destruct o as [d0|]; [|done]. simpl in Hinit.
    destruct (check_items (map_to_list d0)) as [[]|] eqn:Hc; simplify_eq.
    by apply well_typed_items, check_items_ok.
  - simpl. destruct (check_items _) as [[]|e] eqn:Hc.
    + by apply check_items_ok, well_typed_items in Hc.
    + by apply check_items_error in Hc as ->.
Qed.

Lemma update_breaks_typing_witness :
  let σ := {| heap := example_heap; _feature_dict := example_dict |} in
  let σ' := {| heap := example_heap;
               _feature_dict := <[KStr "item" := VNone]> example_dict |} in
  well_typed example_dict ∧
  update (KStr "item") VNone None σ = (Ok tt, σ') ∧
  read (KStr "item") None σ' = (Ok VNone, σ') ∧
  ¬ well_typed (_feature_dict σ') ∧
  __init__ (ODict (_feature_dict σ')) = Err TypeMismatch.
Proof.
  apply (update_breaks_typing example_heap (ODict example_dict) example_dict
           (KStr "item") VNone).
  - reflexivity.
  - apply elem_of_dom. exists (VTensor 2). reflexivity.
  - reflexivity.
Defined.

(** * Further behaviour of the methods *)

(** ** What a call does to the state *)

Lemma getitem_state v ids σ r σ' :
  getitem v ids σ = (r, σ') →
  σ' = σ ∨
  ∃ l t, r = Ok (VTensor l) ∧ heap σ !! l = None ∧
         σ' = {| heap := <[l := t]> (heap σ); _feature_dict := _feature_dict σ |}.
Proof.
  unfold getitem, bind, deref, alloc, ret, raise.
  repeat case_match; intros; simplify_eq/=; try (by left).
  right. eexists _, _. split_and!; [done| |done]. apply not_elem_of_dom, is_fresh.
Qed.

Lemma getitem_error_state v ids σ e σ' :
  getitem v ids σ = (Err e, σ') → σ' = σ.
Proof. intros [->|(l & t & ? & _)]%getitem_state; done. Qed.

Lemma setitem_error_state t ids value σ e σ' :
  setitem t ids value σ = (Err e, σ') → e ≠ IndexOutOfBounds → σ' = σ.
Proof.
  unfold setitem, as_tensor, bind, deref, store, ret, raise.
  repeat case_match; intros; simplify_eq/=; try done.
  all: match goal with H : index_put_rows _ _ _ = _ |- _ =>
    apply index_put_rows_error in H; by subst end.
Qed.

(** X1: [read] leaves the state as it is, except that a successful read
    with [ids] allocates the one tensor it returns, at an address that was
    free; every failing read and every read without [ids] changes
    nothing. *)
Theorem read_allocates_result_only σ key ids r σ' :
  read key ids σ = (r, σ') →
  σ' = σ ∨
  ∃ idx l t,
    ids = Some idx ∧ r = Ok (VTensor l) ∧ heap σ !! l = None ∧
    σ' = {| heap := <[l := t]> (heap σ); _feature_dict := _feature_dict σ |}.
Proof.
  destruct (_feature_dict σ !! key) as [v|] eqn:Hk.
  - destruct ids as [ids|].
    + rewrite (read_rows _ _ _ _ Hk).
      intros [->|(l & t & ? & ? & ?)]%getitem_state; [by left|].
      right. by exists ids, l, t.
    + rewrite (read_whole _ _ _ Hk). intros [= _ <-]. by left.
  - rewrite (read_absent _ _ _ Hk). intros [= _ <-]. by left.
Qed.

Lemma read_allocates_result_only_witness :
  let σ' := (read (KStr "rel") (Some [1; 1]) example_state).2 in
  σ' = example_state ∨
  ∃ idx l t,
    Some [1; 1] = Some idx ∧ Ok (VTensor 6) = Ok (VTensor l) ∧
    heap example_state !! l = None ∧
    σ' = {| heap := <[l := t]> (heap example_state);
            _feature_dict := _feature_dict example_state |}.
Proof.
  apply (read_allocates_result_only example_state (KStr "rel") (Some [1; 1])
           (Ok (VTensor 6))).
  reflexivity.
Defined.

(** X2: an [update] that fails with anything but an index error has changed
    nothing: the assertions on the key and on the lengths, the attribute
    lookup [value.shape] and torch's checks on the value all come before the
    first write. *)
Theorem update_failure_keeps_state σ key value ids e σ' :
  update key value ids σ = (Err e, σ') →
  e ≠ IndexOutOfBounds →
  σ' = σ.
Proof.
  intros Hupd He.
  destruct (_feature_dict σ !! key) as [v|] eqn:Hk.
  - destruct ids as [idx|].
    + rewrite (update_rows _ _ _ _ _ Hk) in Hupd. unfold bind at 1 in Hupd.
      destruct (shape0 value σ) as [[n|e0] σ0] eqn:Hs;
        apply shape0_state in Hs as ->; [|by simplify_eq].
      unfold bind, py_assert in Hupd.
      destruct (bool_decide (length idx = n)); simpl in Hupd; [|by simplify_eq].
      by apply setitem_error_state in Hupd.
    + by rewrite (update_whole _ _ _ _ Hk) in Hupd.
  - rewrite (update_absent _ _ _ _ Hk) in Hupd. by simplify_eq.
Qed.

Lemma update_failure_keeps_state_witness :
  (update (KStr "rel") (VTensor 1) (Some [0; 1; 0; 1; 1]) example_state).2
  = example_state.
Proof.
  apply (update_failure_keeps_state example_state (KStr "rel") (VTensor 1)
           (Some [0; 1; 0; 1; 1]) RuntimeError).
  - reflexivity.
  - discriminate.
Defined.

Lemma read_whole_result σ key :
  (read key None σ).1
  = match _feature_dict σ !! key with
    | Some v => Ok v
    | None => Err KeyNotFound
    end.
Proof.
  destruct (_feature_dict σ !! key) as [v|] eqn:Hk.
  - by rewrite (read_whole _ _ _ Hk).
  - by rewrite (read_absent _ _ _ Hk).
Qed.

Lemma update_ids_dict σ key value idx r σ' :
  update key value (Some idx) σ = (r, σ') → _feature_dict σ' = _feature_dict σ.
Proof.
  intros [->|[(? & _)|(? & ? & ? & ? & ? & ? & ? & _ & _ & _ & _ & ->)]]%update_state;
    done.
Qed.

(** X3: an [update] with [ids] rebinds no key, whatever its outcome, so
    [read(key')] returns the same object before and after it: a reference
    obtained from a read without [ids] stays the stored tensor and sees the
    writes. *)
Theorem update_ids_keeps_objects σ key key' value idx r σ' :
  update key value (Some idx) σ = (r, σ') →
  _feature_dict σ' = _feature_dict σ ∧
  (read key' None σ').1 = (read key' None σ).1.
Proof.
  intros Hd%update_ids_dict. split; [done|].
  by rewrite !read_whole_result, Hd.
Qed.

Lemma update_ids_keeps_objects_witness :
  let σ' := (update (KStr "user") (VTensor 4) (Some [0; 1; 2]) example_state).2 in
  _feature_dict σ' = _feature_dict example_state ∧
  (read (KStr "user") None σ').1 = (read (KStr "user") None example_state).1.
Proof.
  apply (update_ids_keeps_objects example_state (KStr "user") (KStr "user")
           (VTensor 4) [0; 1; 2] (Ok tt)).
  reflexivity.
Defined.

Lemma getitem_ok_state v ids σ w σ' :
  getitem v ids σ = (Ok w, σ') →
  ∃ l t, w = VTensor l ∧ heap σ !! l = None ∧
         σ' = {| heap := <[l := t]> (heap σ); _feature_dict := _feature_dict σ |}.
Proof.
  unfold getitem, bind, deref, alloc, ret, raise.
  repeat case_match; intros; simplify_eq/=.
  eexists _, _. split_and!; [done| |done]. apply not_elem_of_dom, is_fresh.
Qed.

Lemma read_ids_ok_state σ key ids w σ' :
  read key (Some ids) σ = (Ok w, σ') →
  ∃ l t, w = VTensor l ∧ heap σ !! l = None ∧
         σ' = {| heap := <[l := t]> (heap σ); _feature_dict := _feature_dict σ |}.
Proof.
  destruct (_feature_dict σ !! key) as [v|] eqn:Hk.
  - rewrite (read_rows _ _ _ _ Hk). apply getitem_ok_state.
  - by rewrite (read_absent _ _ _ Hk).
Qed.

(** X4: the tensor that [read(key, ids)] returns is a copy: whatever a
    following [update] does, through any key and with any outcome, it leaves
    that tensor as it is, provided the dictionary held no dangling
    reference. *)
Theorem read_ids_result_is_private σ key ids l' σ1 key2 value ids2 r σ2 :
  refs_allocated σ →
  read key (Some ids) σ = (Ok (VTensor l'), σ1) →
  update key2 value ids2 σ1 = (r, σ2) →
  heap σ2 !! l' = heap σ1 !! l'.
Proof.
  intros Hrefs (l & t & [= <-] & Hl' & ->)%read_ids_ok_state Hupd.
  apply update_state in Hupd
    as [->|[(_ & _ & _ & ->)
           |(idx & l & trail & rows & vals & rows' & res & _ & Hk & Hl & _ & ->)]];
    [done..|].
  simpl in *. apply lookup_insert_ne. intros <-.
  destruct (Hrefs _ _ Hk) as [t0 Ht0]. congruence.
Qed.

Lemma example_refs_allocated : refs_allocated example_state.
Proof.
  intros k l Hk. apply elem_of_dom.
  assert (l ∈ [1%positive; 2%positive; 3%positive]) as Hl.
  { simpl in Hk. unfold example_dict in Hk.
    repeat (apply lookup_insert_Some in Hk as [[_ Hk]|[_ Hk]];
            [simplify_eq; set_solver|]).
    by apply lookup_singleton_Some in Hk as [_ [= <-]]; set_solver. }
  repeat (apply elem_of_cons in Hl as [->|Hl]; [by vm_compute|]).
  by apply elem_of_nil in Hl.
Defined.

Lemma read_ids_result_is_private_witness :
  let σ1 := (read (KStr "user") (Some [0; 1]) example_state).2 in
  let σ2 := (update (KStr "user") (VTensor 4) (Some [0; 1; 2]) σ1).2 in
  heap σ2 !! 6%positive = heap σ1 !! 6%positive.
Proof.
  apply (read_ids_result_is_private example_state (KStr "user") [0; 1] 6 _
           (KStr "user") (VTensor 4) (Some [0; 1; 2]) (Ok tt)).
  - exact example_refs_allocated.
  - reflexivity.
  - reflexivity.
Defined.



(** ** Errors *)

(** X6: with [ids], a [value] that has no first dimension is refused before
    the lengths are compared and before any write: [None] and numbers have
    no attribute [shape], and the shape of a zero-dimensional tensor has no
    element [0]. *)
Theorem update_value_without_rows σ key value ids :
  key ∈ dom (_feature_dict σ) →
  (∀ lv, value = VTensor lv → ∃ x, heap σ !! lv = Some (Scalar x)) →
  update key value (Some ids) σ
  = (Err (if isinstance_Tensor value then IndexOutOfBounds else AttributeError), σ).
Proof.
  intros [v Hk]%elem_of_dom Hval.
  rewrite (update_rows _ _ _ _ _ Hk). unfold bind at 1, shape0.
  destruct value as [| |lv]; simpl; [done..|].
  destruct (Hval lv eq_refl) as [x Hlv].
  unfold bind, deref. by rewrite Hlv.
Qed.

Lemma update_value_without_rows_witness :
  update (KStr "user") (VInt 7) (Some [0]) example_state
  = (Err AttributeError, example_state).
Proof.
  apply (update_value_without_rows example_state (KStr "user") (VInt 7) [0]).
  - apply elem_of_dom. exists (VTensor 1). reflexivity.
  - discriminate.
Defined.



Lemma getitem_errors v ids σ e σ' :
  getitem v ids σ = (Err e, σ') →
  e = IndexOutOfBounds ∨
  (e = TypeError ∧ isinstance_Tensor v = false) ∨
  (e = SystemError ∧ ∃ l, v = VTensor l ∧ heap σ !! l = None).
Proof.
  unfold getitem, bind, deref, alloc, ret, raise.
  repeat case_match; intros; simplify_eq/=; eauto 7.
  match goal with H : index_rows _ _ = _ |- _ => apply index_rows_error in H end.
  by left.
Qed.

Lemma shape0_errors value σ e σ' :
  shape0 value σ = (Err e, σ') →
  e = IndexOutOfBounds ∨
  (e = AttributeError ∧ isinstance_Tensor value = false) ∨
  (e = SystemError ∧ ∃ l, value = VTensor l ∧ heap σ !! l = None).
Proof.
  unfold shape0, bind, deref, ret, raise.
  repeat case_match; intros; simplify_eq/=; eauto 7.
Qed.

Lemma setitem_errors t ids value σ e σ' :
  setitem t ids value σ = (Err e, σ') →
  e = IndexOutOfBounds ∨ e = RuntimeError ∨
  (e = TypeError ∧ (isinstance_Tensor t = false ∨ value = VNone)) ∨
  (e = SystemError ∧
   ∃ l, (t = VTensor l ∨ value = VTensor l) ∧ heap σ !! l = None).
Proof.
  unfold setitem, as_tensor, bind, deref, store, ret, raise.
  repeat case_match; intros; simplify_eq/=; eauto 10.
  all: match goal with H : index_put_rows _ _ _ = _ |- _ =>
    apply index_put_rows_error in H; subst; by left end.
Qed.


(** X9: on a store whose keys are bound to allocated tensors, the only ways
    for [read] to fail are the assertion on the key and an index error. *)
Theorem read_errors σ key ids e σ' :
  store_ok σ →
  read key ids σ = (Err e, σ') →
  e = KeyNotFound ∨ e = IndexOutOfBounds.
Proof.
  intros [Hwt Hrefs] Hread.
  destruct (_feature_dict σ !! key) as [v|] eqn:Hk.
  - destruct ids as [idx|].
    + rewrite (read_rows _ _ _ _ Hk) in Hread.
      destruct (Hwt _ _ Hk) as [_ [l ->]]. destruct (Hrefs _ _ Hk) as [t Ht].
      apply getitem_errors in Hread
        as [->|[[_ ?]|(_ & l0 & ? & ?)]]; [by right|done|]. simplify_eq.
    + by rewrite (read_whole _ _ _ Hk) in Hread.
  - rewrite (read_absent _ _ _ Hk) in Hread. left. by simplify_eq.
Qed.

(** X10: on such a store, with a tensor for [value], the only ways for
    [update] to fail are the two assertions, an index error and torch's
    refusal of the value (its shape, or a value that is the written tensor);
    without [ids] it fails for a missing key only. *)
Theorem update_errors σ key lv ids e σ' :
  store_ok σ →
  is_Some (heap σ !! lv) →
  update key (VTensor lv) ids σ = (Err e, σ') →
  (e = KeyNotFound ∧ key ∉ dom (_feature_dict σ)) ∨
  (is_Some ids ∧
   (e = ShapeMismatch ∨ e = IndexOutOfBounds ∨ e = RuntimeError)).
Proof.
  intros [Hwt Hrefs] [tv Hlv] Hupd.
  destruct (_feature_dict σ !! key) as [v|] eqn:Hk.
  - right. destruct ids as [idx|]; [|by rewrite (update_whole _ _ _ _ Hk) in Hupd].
    split; [done|].
    rewrite (update_rows _ _ _ _ _ Hk) in Hupd. unfold bind at 1 in Hupd.
    destruct (shape0 (VTensor lv) σ) as [[n|e0] σ0] eqn:Hs.
    + apply shape0_state in Hs as ->. unfold bind, py_assert in Hupd.
      destruct (bool_decide (length idx = n)); simpl in Hupd; [|left; by simplify_eq].
      destruct (Hwt _ _ Hk) as [_ [l ->]]. destruct (Hrefs _ _ Hk) as [t Ht].
      apply setitem_errors in Hupd
        as [->|[->|[[_ [?|?]]|(_ & l0 & [?|?] & ?)]]]; simplify_eq; auto.
    + simplify_eq.
      apply shape0_errors in Hs as [->|[[_ ?]|(_ & l0 & ? & ?)]]; simplify_eq; auto.
  - rewrite (update_absent _ _ _ _ Hk) in Hupd. left.
    split; [by simplify_eq|by apply not_elem_of_dom].
Qed.

Lemma example_store_ok : store_ok example_state.
Proof.
  split; [|exact example_refs_allocated].
  apply well_typed_items, check_items_ok. reflexivity.
Defined.

Lemma read_errors_witness : IndexOutOfBounds = KeyNotFound ∨ IndexOutOfBounds = IndexOutOfBounds.
Proof.
  apply (read_errors example_state (KStr "rel") (Some [0; 5]) IndexOutOfBounds
           example_state).
  - exact example_store_ok.
  - reflexivity.
Defined.

Lemma update_errors_witness :
  (RuntimeError = KeyNotFound ∧ KStr "rel" ∉ dom (_feature_dict example_state)) ∨
  (is_Some (Some [0; 1; 0; 1; 1]) ∧
   (RuntimeError = ShapeMismatch ∨ RuntimeError = IndexOutOfBounds ∨
    RuntimeError = RuntimeError)).
Proof.
  apply (update_errors example_state (KStr "rel") 1 (Some [0; 1; 0; 1; 1])
           RuntimeError example_state).
  - exact example_store_ok.
  - eexists. reflexivity.
  - reflexivity.
Defined.

(** ** Invariants *)

(** X11: the methods keep a store in the state the constructor leaves it
    in, every key a string bound to an allocated tensor, as long as
    [update] without [ids] is given an allocated tensor; with [ids] any
    call keeps it, whatever the value and the outcome. *)
Theorem store_ok_preserved σ key value ids ids' r σ1 r' σ2 :
  store_ok σ →
  (ids = None → ∃ l, value = VTensor l ∧ is_Some (heap σ !! l)) →
  update key value ids σ = (r, σ1) →
  read key ids' σ = (r', σ2) →
  store_ok σ1 ∧ store_ok σ2.
Proof.
  intros [Hwt Hrefs] Hval Hupd [Hd2 Hh2]%read_frame. split.
  - apply update_state in Hupd
      as [->|[(-> & -> & [v Hk] & ->)
             |(idx & l & trail & rows & vals & rows' & res & -> & Hk & Hl & Hput & ->)]].
    + done.
    + destruct (Hval eq_refl) as (lv & -> & Hlv).
      split; [|unfold refs_allocated]; simpl.
      * intros k w [[<- <-]|[_ Hw]]%lookup_insert_Some; [|by apply Hwt].
        split; [|by eexists]. by destruct (Hwt _ _ Hk).
      * intros k l [[_ [= <-]]|[_ Hw]]%lookup_insert_Some; [done|by apply (Hrefs k)].
    + split; [done|]. intros k l0 Hk0. simpl in *.
      destruct (decide (l0 = l)) as [->|Hne].
      * rewrite lookup_insert_eq. by eexists.
      * rewrite lookup_insert_ne by done. by apply (Hrefs k).
  - split.
    + by rewrite Hd2.
    + intros k l Hk. rewrite Hd2 in Hk. destruct (Hrefs _ _ Hk) as [t Ht].
      exists t. by apply Hh2.
Qed.

Lemma store_ok_preserved_witness :
  store_ok (update (KStr "user") (VTensor 4) None example_state).2 ∧
  store_ok (read (KStr "user") (Some [0]) example_state).2.
Proof.
  apply (store_ok_preserved example_state (KStr "user") (VTensor 4) None (Some [0])
           (Ok tt) _ (Ok (VTensor 6)) _).
  - exact example_store_ok.
  - intros _. exists 4%positive. split; [reflexivity|]. eexists. reflexivity.
  - reflexivity.
  - reflexivity.
Defined.

(** X12: no [update], with or without [ids] and whatever its outcome, frees
    a tensor object or changes its shape. *)
Theorem update_keeps_shapes σ key value ids r σ' l t :
  update key value ids σ = (r, σ') →
  heap σ !! l = Some t →
  ∃ t', heap σ' !! l = Some t' ∧ shape t' = shape t.
Proof.
  intros Hupd Ht.
  apply update_state in Hupd
    as [->|[(_ & _ & _ & ->)
           |(idx & l0 & trail & rows & vals & rows' & res & _ & _ & Hl0 & Hput & ->)]];
    [by exists t..|].
  simpl. destruct (decide (l = l0)) as [->|Hne].
  - rewrite lookup_insert_eq. eexists. split; [done|]. simplify_eq. simpl.
    apply index_put_rows_frame in Hput as [-> _]. done.
  - rewrite lookup_insert_ne by done. by exists t.
Qed.

Lemma update_keeps_shapes_witness :
  ∃ t', heap (update (KStr "rel") (VTensor 4) (Some [0; 1; 0]) example_state).2
          !! 3%positive = Some t' ∧
        shape t' = shape (Rows [3%nat] [[0; 1; 2]; [3; 4; 5]]).
Proof.
  apply (update_keeps_shapes example_state (KStr "rel") (VTensor 4)
           (Some [0; 1; 0]) (Ok tt)).
  - reflexivity.
  - reflexivity.
Defined.

(** *** Broadcasting yields as many elements as the target shape holds *)

Lemma prod_list_app s1 s2 :
  prod_list (s1 ++ s2) = (prod_list s1 * prod_list s2)%nat.
Proof. induction s1 as [|v s1 IH]; simpl; [lia|]. rewrite IH. lia. Qed.

Lemma prod_list_ones k : prod_list (replicate k 1%nat) = 1%nat.
Proof. induction k as [|k IH]; simpl; [done|]. rewrite IH. lia. Qed.

Lemma prod_list_strip_ones s : prod_list (strip_ones s) = prod_list s.
Proof. induction s as [|[|[|v]] s IH]; simpl; try done. rewrite IH. lia. Qed.

Lemma prod_list_align vs ts : prod_list (align vs ts) = prod_list vs.
Proof.
  unfold align. rewrite prod_list_app, prod_list_ones, prod_list_strip_ones. lia.
Qed.

Lemma expand_length vs : ∀ ts d,
  expandable vs ts = true →
  length d = prod_list vs →
  length (expand vs ts d) = prod_list ts.
Proof.
  induction vs as [|v vs IH]; intros [|t ts] d Hexp Hd; simpl in *; try done.
  apply andb_prop in Hexp as [Hv Hexp].
  destruct (decide (v = t)) as [<-|Hvt].
  - destruct (reshape_chunks (prod_list vs) v d Hd) as [Hall _].
    rewrite (concat_rows_length (prod_list ts)).
    + by rewrite length_fmap, length_reshape, length_replicate.
    + apply Forall_fmap. eapply Forall_impl; [exact Hall|].
      intros c Hc. simpl. by apply IH.
  - apply orb_prop in Hv as [Hv|Hv]; apply bool_decide_eq_true_1 in Hv; [done|].
    subst v. rewrite (concat_rows_length (prod_list ts)).
    + by rewrite length_replicate.
    + apply Forall_replicate, IH; [done|lia].
Qed.

Lemma flat_length t : tensor_wf t → length (flat t) = prod_list (shape t).
Proof.
  destruct t as [x|trail rows]; simpl; [done|]. apply concat_rows_length.
Qed.

Lemma broadcast_rows_wf v m trail d :
  tensor_wf v →
  broadcast_to (shape v) (m :: trail) (flat v) = Some d →
  Forall (λ r, length r = prod_list trail)
         (reshape (replicate m (prod_list trail)) d).
Proof.
  unfold broadcast_to. intros Hwf Hb.
  destruct (expandable _ _) eqn:Hexp; [|done]. simplify_eq.
  apply reshape_chunks.
  rewrite (expand_length _ _ _ Hexp); [done|].
  by rewrite prod_list_align, flat_length.
Qed.

Lemma index_put_rows_wf n ids : ∀ rows vals rows' res,
  Forall (λ r, length r = n) rows →
  Forall (λ r, length r = n) vals →
  index_put_rows rows ids vals = (rows', res) →
  Forall (λ r, length r = n) rows'.
Proof.
  induction ids as [|i ids IH]; intros rows vals rows' res Hrows Hvals Hput.
  - destruct vals; by simplify_eq/=.
  - destruct vals as [|v vals]; [by simplify_eq/=|]. simpl in Hput.
    apply Forall_cons in Hvals as [Hv Hvals].
    destruct (norm_index _ i); [|by simplify_eq].
    eapply IH; [|done..]. by apply Forall_insert.
Qed.

Lemma index_rows_wf (P : list Z → Prop) rows ids rs :
  Forall P rows → index_rows rows ids = Ok rs → Forall P rs.
Proof.
  intros Hrows. revert rs. induction ids as [|i ids IH]; intros rs; simpl.
  - by intros [= <-].
  - destruct (norm_index _ i ≫= _) as [r|] eqn:Hr; [|done].
    destruct (index_rows rows ids) as [rs'|]; [|done]. intros [= <-].
    constructor; [|by apply IH].
    destruct (norm_index _ i) as [k|]; [|done]. simpl in Hr.
    by eapply Forall_lookup_1.
Qed.

Lemma as_tensor_state value σ r σ' : as_tensor value σ = (r, σ') → σ' = σ.
Proof.
  unfold as_tensor, deref, ret, raise. repeat case_match; by intros; simplify_eq.
Qed.

(** What [setitem] writes, in full. *)
Lemma setitem_write t ids value σ r σ' :
  setitem t ids value σ = (r, σ') →
  σ' = σ ∨
  ∃ l trail rows v d rows' res,
    t = VTensor l ∧ heap σ !! l = Some (Rows trail rows) ∧
    as_tensor value σ = (Ok v, σ) ∧
    broadcast_to (shape v) (length ids :: trail) (flat v) = Some d ∧
    index_put_rows rows ids (reshape (replicate (length ids) (prod_list trail)) d)
    = (rows', res) ∧
    σ' = {| heap := <[l := Rows trail rows']> (heap σ);
            _feature_dict := _feature_dict σ |}.
Proof.
  unfold setitem, bind.
  destruct t as [| |l]; try (intros [= _ <-]; by left).
  unfold deref at 1. destruct (heap σ !! l) as [[x|trail rows]|] eqn:Hl;
    try (intros [= _ <-]; by left).
  - destruct (as_tensor value σ) as [[v|e] σ0] eqn:Hv;
      apply as_tensor_state in Hv as ->; intros [= _ <-]; by left.
  - destruct (as_tensor value σ) as [[v|e] σ0] eqn:Hv.
    + pose proof (as_tensor_state _ _ _ _ Hv) as ->.
      case_decide; [intros [= _ <-]; by left|].
      destruct (broadcast_to _ _ _) as [d|] eqn:Hb; [|intros [= _ <-]; by left].
      destruct (index_put_rows _ _ _) as [rows' res] eqn:Hput.
      unfold store, ret, raise. intros Hr. right.
      exists l, trail, rows, v, d, rows', res. split_and!; try done.
      by destruct res; simplify_eq.
    + apply as_tensor_state in Hv as ->. intros [= _ <-]. by left.
Qed.

Lemma as_tensor_wf value σ v σ' :
  heap_wf σ → as_tensor value σ = (Ok v, σ') → tensor_wf v.
Proof.
  intros Hwf. unfold as_tensor, deref, ret, raise.
  repeat case_match; intros; simplify_eq/=; [done|by eapply Hwf].
Qed.

Lemma getitem_ok_rows v ids σ w σ' :
  getitem v ids σ = (Ok w, σ') →
  ∃ l0 trail rows l rs,
    v = VTensor l0 ∧ heap σ !! l0 = Some (Rows trail rows) ∧
    index_rows rows ids = Ok rs ∧ w = VTensor l ∧ heap σ !! l = None ∧
    σ' = {| heap := <[l := Rows trail rs]> (heap σ);
            _feature_dict := _feature_dict σ |}.
Proof.
  unfold getitem, bind, deref, alloc, ret, raise.
  repeat case_match; intros; simplify_eq/=.
  eexists _, _, _, _, _. split_and!; try done. apply not_elem_of_dom, is_fresh.
Qed.

(** X13: the methods keep every tensor well formed: if each row of each
    tensor object has the number of elements of its trailing shape before a
    [read] or an [update], so it has after, whatever the arguments and the
    outcome. *)
Theorem heap_wf_preserved σ key value ids ids' r σ1 r' σ2 :
  heap_wf σ →
  update key value ids σ = (r, σ1) →
  read key ids' σ = (r', σ2) →
  heap_wf σ1 ∧ heap_wf σ2.
Proof.
  intros Hwf Hupd Hread. split.
  - destruct (_feature_dict σ !! key) as [v|] eqn:Hk.
    + destruct ids as [idx|].
      * rewrite (update_rows _ _ _ _ _ Hk) in Hupd. unfold bind at 1 in Hupd.
        destruct (shape0 value σ) as [[n|e0] σ0] eqn:Hs;
          apply shape0_state in Hs as ->; [|by simplify_eq].
        unfold bind, py_assert in Hupd.
        destruct (bool_decide (length idx = n)); simpl in Hupd; [|by simplify_eq].
        apply setitem_write in Hupd
          as [->|(l & trail & rows & tv & d & rows' & res & _ & Hl & Hv & Hb & Hput & ->)];
          [done|].
        intros l0 t0. simpl.
        intros [[<- <-]|[_ Ht0]]%lookup_insert_Some; [|by eapply Hwf].
        simpl. eapply index_put_rows_wf; [exact (Hwf l _ Hl)| |exact Hput].
        eapply broadcast_rows_wf; [|exact Hb]. by eapply as_tensor_wf.
      * rewrite (update_whole _ _ _ _ Hk) in Hupd. by simplify_eq.
    + rewrite (update_absent _ _ _ _ Hk) in Hupd. by simplify_eq.
  - destruct r' as [w|e].
    + destruct ids' as [idx|].
      * destruct (_feature_dict σ !! key) as [v|] eqn:Hk;
          [|by rewrite (read_absent _ _ _ Hk) in Hread].
        rewrite (read_rows _ _ _ _ Hk) in Hread.
        apply getitem_ok_rows in Hread
          as (l0 & trail & rows & l & rs & _ & Hl0 & Hrs & _ & _ & ->).
        intros l1 t1. simpl.
        intros [[<- <-]|[_ Ht1]]%lookup_insert_Some; [|by eapply Hwf].
        simpl. eapply index_rows_wf; [|exact Hrs]. exact (Hwf l0 _ Hl0).
      * apply read_frame in Hread as Hfr.
        destruct (_feature_dict σ !! key) as [v|] eqn:Hk.
        -- rewrite (read_whole _ _ _ Hk) in Hread. by simplify_eq.
        -- by rewrite (read_absent _ _ _ Hk) in Hread.
    + destruct (_feature_dict σ !! key) as [v|] eqn:Hk.
      * destruct ids' as [idx|].
        -- rewrite (read_rows _ _ _ _ Hk) in Hread.
           by apply getitem_error_state in Hread as ->.
        -- by rewrite (read_whole _ _ _ Hk) in Hread.
      * rewrite (read_absent _ _ _ Hk) in Hread. by simplify_eq.
Qed.

Lemma example_heap_wf : heap_wf example_state.
Proof.
  intros l t Ht. simpl in Ht. unfold example_heap in Ht.
  repeat (apply lookup_insert_Some in Ht as [[_ <-]|[_ Ht]];
          [by repeat constructor|]).
  apply lookup_singleton_Some in Ht as [_ <-]. by repeat constructor.
Defined.

Lemma heap_wf_preserved_witness :
  heap_wf (update (KStr "rel") (VTensor 4) (Some [0; 1; 0]) example_state).2 ∧
  heap_wf (read (KStr "rel") (Some [1; 1; 0]) example_state).2.
Proof.
  apply (heap_wf_preserved example_state (KStr "rel") (VTensor 4)
           (Some [0; 1; 0]) (Some [1; 1; 0]) (Ok tt) _ (Ok (VTensor 6)) _).
  - exact example_heap_wf.
  - reflexivity.
  - reflexivity.
Defined.

(** ** How updates compose *)








(** ** Whole-tensor reads and writes through [ids] *)

Lemma arange_length n : length (arange n) = n.
Proof. unfold arange. rewrite length_seqZ. lia. Qed.

Lemma arange_lookup n j i : arange n !! j = Some i → i = Z.of_nat j ∧ (j < n)%nat.
Proof. unfold arange. intros [-> ?]%lookup_seqZ. split; lia. Qed.

Lemma arange_in_range n : Forall (in_range n) (arange n).
Proof.
  apply Forall_lookup. intros j i [-> ?]%arange_lookup. unfold in_range. lia.
Qed.

Lemma row_of_nat n j : row_of n (Z.of_nat j) = j.
Proof. rewrite row_of_nonneg by lia. lia. Qed.

(** X16: [read(key, arange(n))], with [n] the number of rows stored under
    [key], returns a newly allocated tensor with exactly the shape and the
    contents of the stored one, and the stored one stays. *)
Theorem read_arange_copies σ key l trail rows :
  _feature_dict σ !! key = Some (VTensor l) →
  heap σ !! l = Some (Rows trail rows) →
  ∃ l',
    read key (Some (arange (length rows))) σ
    = (Ok (VTensor l'),
       {| heap := <[l' := Rows trail rows]> (heap σ);
          _feature_dict := _feature_dict σ |}) ∧
    l' ≠ l.
Proof.
  intros Hk Hl.
  destruct (index_rows_in_range rows (arange (length rows)) (arange_in_range _))
    as (rs & Hrs & Hlen & Hget).
  assert (rs = rows) as ->.
  { rewrite arange_length in Hlen. apply list_eq. intros j.
    destruct (decide (j < length rows)%nat) as [Hj|Hj].
    - rewrite (Hget j (Z.of_nat j)), row_of_nat; [done|].
      unfold arange. apply lookup_seqZ_lt. lia.
    - rewrite !lookup_ge_None_2; [done|lia..]. }
  exists (fresh (dom (heap σ))). split.
  - by rewrite (read_rows _ _ _ _ Hk), (getitem_rows _ _ _ _ _ Hl), Hrs.
  - intros Heq. pose proof (is_fresh (dom (heap σ))) as Hf.
    rewrite Heq in Hf. apply Hf, elem_of_dom. eauto.
Qed.

Lemma read_arange_copies_witness :
  ∃ l',
    read (KStr "rel") (Some (arange 2)) example_state
    = (Ok (VTensor l'),
       {| heap := <[l' := Rows [3%nat] [[0; 1; 2]; [3; 4; 5]]]> (heap example_state);
          _feature_dict := _feature_dict example_state |}) ∧
    l' ≠ 3%positive.
Proof.
  apply (read_arange_copies example_state (KStr "rel") 3 [3%nat]
           [[0; 1; 2]; [3; 4; 5]]); reflexivity.
Defined.



(** X18: reading the same rows twice returns two different tensor objects
    with the same contents; the first result is not touched by the second
    read. *)
Theorem read_ids_twice σ key l trail rows ids :
  _feature_dict σ !! key = Some (VTensor l) →
  heap σ !! l = Some (Rows trail rows) →
  Forall (in_range (length rows)) ids →
  ∃ l1 σ1 l2 σ2 rs,
    read key (Some ids) σ = (Ok (VTensor l1), σ1) ∧
    read key (Some ids) σ1 = (Ok (VTensor l2), σ2) ∧
    l1 ≠ l2 ∧
    heap σ2 !! l1 = Some (Rows trail rs) ∧
    heap σ2 !! l2 = Some (Rows trail rs).
Proof.
  intros Hk Hl Hin.
  destruct (index_rows_in_range rows ids Hin) as (rs & Hrs & _).
  set (l1 := fresh (dom (heap σ))).
  set (σ1 := {| heap := <[l1 := Rows trail rs]> (heap σ);
                _feature_dict := _feature_dict σ |}).
  set (l2 := fresh (dom (heap σ1))).
  assert (Hl1 : l1 ≠ l).
  { intros Heq. apply (is_fresh (dom (heap σ))). fold l1. rewrite Heq.
    apply elem_of_dom. eauto. }
  assert (Hl2 : l1 ≠ l2).
  { intros Heq. apply (is_fresh (dom (heap σ1))). fold l2. rewrite <-Heq.
    apply elem_of_dom. simpl. rewrite lookup_insert_eq. eauto. }
  assert (Hl' : heap σ1 !! l = Some (Rows trail rows)).
  { simpl. by rewrite lookup_insert_ne. }
  exists l1, σ1, l2,
    {| heap := <[l2 := Rows trail rs]> (heap σ1); _feature_dict := _feature_dict σ1 |},
    rs.
  split_and!.
  - by rewrite (read_rows _ _ _ _ Hk), (getitem_rows _ _ _ _ _ Hl), Hrs.
  - by rewrite (read_rows σ1 key (VTensor l) ids Hk), (getitem_rows _ _ _ _ _ Hl'), Hrs.
  - done.
  - simpl. rewrite lookup_insert_ne by done. apply lookup_insert_eq.
  - simpl. apply lookup_insert_eq.
Qed.

Lemma read_ids_twice_witness :
  ∃ l1 σ1 l2 σ2 rs,
    read (KStr "rel") (Some [1; -1]) example_state = (Ok (VTensor l1), σ1) ∧
    read (KStr "rel") (Some [1; -1]) σ1 = (Ok (VTensor l2), σ2) ∧
    l1 ≠ l2 ∧
    heap σ2 !! l1 = Some (Rows [3%nat] rs) ∧
    heap σ2 !! l2 = Some (Rows [3%nat] rs).
Proof.
  apply (read_ids_twice example_state (KStr "rel") 3 [3%nat]
           [[0; 1; 2]; [3; 4; 5]] [1; -1]).
  - reflexivity.
  - reflexivity.
  - repeat constructor; simpl; lia.
Defined.

(** ** Empty index lists and keys that are no strings *)







(** ** Reading after writing *)





